(** * Airbus dashboard: the analytics pipeline of [app.py]

    A shallow embedding of the script's data path: [load_data], the date
    filter with its 15-row gate, the feature block ([ret], [maF], [maS],
    [peak], [dd], [volR]), the six KPIs, the regime flag and the loop
    that shades the regimes, followed by the properties of each stage.

    Conventions of the model.
    - A float of the source is an exact rational ([Q]).  Where the source
      divides, the quotient by zero is kept as an infinity or a NaN
      ([float] below); rounding and overflow are not modelled, and a
      numeric cell read from the file is a finite number or missing.
    - A square root is kept symbolic ([surd]), with its real value given
      by [surd_value].
    - A missing cell (NaN, NaT) is [None].
    - A pandas column is a [list]; [.iloc] is list lookup, which fails
      out of range.
    - The Streamlit calls of the script are events appended to a log. *)

From Stdlib Require Import ZArith QArith Qminmax Psatz Rbase R_sqrt Qreals.
From stdpp Require Import base option list sorting gmap strings.

Local Open Scope Z_scope.

(** ** Numbers *)

(** What a float division of the source can produce from finite operands. *)
Inductive float : Type :=
  | NaN
  | Inf (negative : bool)
  | Fin (q : Q).

Definition Qeqb (a b : Q) : bool := Qeq_bool a b.
Definition Qltb (a b : Q) : bool := negb (Qle_bool b a).

(** [a / b] on floats holding the finite values [a] and [b]. *)
Definition fdiv (a b : Q) : float :=
  if Qeqb b 0 then
    if Qeqb a 0 then NaN else Inf (Qltb a 0)
  else Fin (a / b).

(** [x - 1]. *)
Definition fsub1 (x : float) : float :=
  match x with
  | Fin q => Fin (q - 1)
  | Inf s => Inf s
  | NaN => NaN
  end.

(** The finite observation held by a cell, if any. *)
Definition finite (x : float) : option Q :=
  match x with Fin q => Some q | _ => None end.

Definition is_nan (x : float) : bool :=
  match x with NaN => true | _ => false end.

(** [x <= y] on floats that are not NaN. *)
Definition fleb (x y : float) : bool :=
  match x, y with
  | Inf true, _ => true
  | _, Inf false => true
  | Fin a, Fin b => Qle_bool a b
  | _, _ => false
  end.

(** A non-negative real known by its square: [Surd r] is the square root
    of [r].  [np.sqrt] and the product of two roots stay exact. *)
Inductive surd : Type := Surd (r : Q).

Definition radicand (s : surd) : Q := let 'Surd r := s in r.
Definition np_sqrt (q : Q) : surd := Surd q.
Definition surd_mul (a b : surd) : surd := Surd (radicand a * radicand b).

(** The real number a [surd] stands for. *)
Definition surd_value (s : surd) : R := sqrt (Q2R (radicand s)).

(** ** Data model *)

(** A [datetime64[ns]] value: nanoseconds since the epoch. *)
Definition Timestamp : Type := Z.

Definition ns_per_day : Z := 86400000000000.

(** [.dt.date]: the calendar day of a timestamp. *)
Definition dt_date (t : Timestamp) : Z := t / ns_per_day.

(** One line of the file once [pd.to_datetime] and [pd.to_numeric] have
    run with [errors="coerce"]: each cell parsed, or missing. *)
Record RawRow : Type := mkRaw {
  raw_date : option Timestamp;
  raw_ouv : option Q;
  raw_haut : option Q;
  raw_bas : option Q;
  raw_clot : option Q;
  raw_vol : option Q
}.

(** One row that survived [dropna(subset=["date","clot"])]. *)
Record Bar : Type := mkBar {
  date : Timestamp;
  ouv : option Q;
  haut : option Q;
  bas : option Q;
  clot : Q;
  vol : option Q
}.

(** The files next to the script: name to parsed content. *)
Abbreviation FileSystem := (gmap string (list RawRow)).

(** ** DataLoader *)

Definition dropna_row (r : RawRow) : option Bar :=
  match raw_date r, raw_clot r with
  | Some d, Some c =>
      Some (mkBar d (raw_ouv r) (raw_haut r) (raw_bas r) c (raw_vol r))
  | _, _ => None
  end.

(** [df.dropna(subset=["date","clot"])]. *)
Definition dropna (tbl : list RawRow) : list Bar := omap dropna_row tbl.

Definition date_le (a b : Bar) : Prop := date a ≤ date b.

#[global] Instance date_le_dec : RelDecision date_le :=
  λ a b, Z.le_dec (date a) (date b).

(** [df.sort_values("date")]: ascending, no row added or removed.  The
    order pandas gives to rows of equal date is not relied upon. *)
Definition sort_values (df : list Bar) : list Bar := merge_sort date_le df.

(** ** The date filter *)

(** The values of the sidebar widgets: two dates (calendar days) and the
    three sliders.  They are inputs of the model; the defaults the script
    proposes for the dates (the first and last loaded day) are not. *)
Record Widgets : Type := mkWidgets {
  start : Z;
  end_ : Z;
  maF : nat;
  maS : nat;
  vol_w : nat
}.


(** [df[(df["date"].dt.date>=start) & (df["date"].dt.date<=end)]]. *)
Definition date_filter (w : Widgets) (df : list Bar) : list Bar :=
  filter (λ b, start w ≤ dt_date (date b) ∧ dt_date (date b) ≤ end_ w) df.

(** ** FeatureEngine *)

Definition Qsum (xs : list Q) : Q := foldr Qplus 0%Q xs.

Definition Qlen (xs : list Q) : Q := inject_Z (Z.of_nat (length xs)).

(** [.mean()] of the observations present; NaN when there is none. *)
Definition mean (xs : list Q) : option Q :=
  match xs with
  | [] => None
  | _ => Some (Qsum xs / Qlen xs)%Q
  end.

(** Sum of squared deviations from [m]. *)
Definition ssd (m : Q) (xs : list Q) : Q :=
  Qsum ((λ x, (x - m) * (x - m))%Q <$> xs).

(** Unbiased variance (ddof = 1) of at least two observations. *)
Definition var (xs : list Q) : Q :=
  (ssd (Qsum xs / Qlen xs) xs / (Qlen xs - 1))%Q.

(** [.std()] of the observations present: NaN below two of them. *)
Definition std (xs : list Q) : option surd :=
  if decide (2 ≤ length xs)%nat then Some (Surd (var xs)) else None.

(** [s.pct_change()] on a column without missing cells:
    [s / s.shift(1) - 1], the first row having no predecessor. *)
Definition pct_change (s : list Q) : list float :=
  match s with
  | [] => []
  | _ :: tl => NaN :: zip_with (λ cur prev, fsub1 (fdiv cur prev)) tl s
  end.

(** The rows [max(0, i-w+1) .. i] of a column: what a rolling window of
    size [w] holds at row [i]. *)
Definition window {A} (w i : nat) (s : list A) : list A :=
  take (S i - (S i - w)) (drop (S i - w) s).

(** [s.rolling(w).agg()]: at each row the aggregate of the window's
    observations, provided there are [w] of them ([min_periods] defaults
    to the window size); NaN otherwise.  [obs] tells which cells count
    as observations: the rolling kernels see an infinity as NaN. *)
Definition rolling {A B} (w : nat) (obs : A → option Q)
    (agg : list Q → option B) (s : list A) : list (option B) :=
  (λ i, let seen := omap obs (window w i s) in
        if decide (w ≤ length seen)%nat then agg seen else None)
    <$> seq 0 (length s).

Fixpoint cummax_from (m : Q) (s : list Q) : list Q :=
  match s with
  | [] => []
  | x :: tl => Qmax m x :: cummax_from (Qmax m x) tl
  end.

(** [s.cummax()] on a column without missing cells. *)
Definition cummax (s : list Q) : list Q :=
  match s with
  | [] => []
  | x :: tl => x :: cummax_from x tl
  end.

(** [a > b] on two cells that may be NaN: false as soon as one is. *)
Definition gt_nan (a b : option Q) : bool :=
  match a, b with
  | Some x, Some y => Qltb y x
  | _, _ => false
  end.

(** The columns the script adds to [data]. *)
Record Derived : Type := mkDerived {
  col_ret : list float;
  col_maF : list (option Q);
  col_maS : list (option Q);
  col_peak : list Q;
  col_dd : list float;
  col_volR : list (option surd)
}.

Definition annualize (s : surd) : surd := surd_mul s (np_sqrt 252).

(** The feature block. *)
Definition features (w : Widgets) (data : list Bar) : Derived :=
  let c : list Q := clot <$> data in
  let ret := pct_change c in
  let peak := cummax c in
  {| col_ret := ret;
     col_maF := rolling (maF w) Some mean c;
     col_maS := rolling (maS w) Some mean c;
     col_peak := peak;
     col_dd := zip_with (λ x p, fsub1 (fdiv x p)) c peak;
     col_volR := (λ o : option surd, annualize <$> o)
                   <$> rolling (vol_w w) finite std ret |}.

(** [data["reg"] = (data["maF"] > data["maS"]).astype(int)]. *)
Definition col_reg (d : Derived) : list Z :=
  zip_with (λ a b, Z.b2z (gt_nan a b)) (col_maF d) (col_maS d).

(** ** SummaryMetrics *)

(** [s.max()]: the largest cell present; NaN when there is none. *)
Definition col_max (s : list (option Q)) : option Q :=
  match omap id s with
  | [] => None
  | x :: tl => Some (foldl Qmax x tl)
  end.

(** [s.mean()]: the mean of the cells present. *)
Definition col_mean (s : list (option Q)) : option Q := mean (omap id s).

Definition fmin (x y : float) : float := if fleb x y then x else y.

(** [s.min()] on a float column: NaN cells are skipped. *)
Definition col_min (s : list float) : float :=
  match filter (λ x, is_nan x = false) s with
  | [] => NaN
  | x :: tl => foldl fmin x tl
  end.

(** [s.std()] on a float column: NaN cells are skipped, and an infinity
    among the others makes the result NaN. *)
Definition col_std (s : list float) : option surd :=
  let seen := filter (λ x, is_nan x = false) s in
  if decide (Forall (λ x, is_Some (finite x)) seen)
  then std (omap finite seen) else None.

Record Kpis : Type := mkKpis {
  last_close : Q;
  perf : float;
  max_high : option Q;
  avg_vol : option Q;
  vol_ann : option surd;
  max_dd : float
}.

(** The KPI block; [None] when an [.iloc] is out of range. *)
Definition kpis (data : list Bar) (d : Derived) : option Kpis :=
  lc ← last (clot <$> data);
  fc ← (clot <$> data) !! 0%nat;
  Some {| last_close := lc;
          perf := fsub1 (fdiv lc fc);
          max_high := col_max (haut <$> data);
          avg_vol := col_mean (vol <$> data);
          vol_ann := annualize <$> col_std (col_ret d);
          max_dd := col_min (col_dd d) |}.

(** ** RegimeSegmenter: the shading loop *)

Record vrect : Type := mkVrect {
  x0 : Timestamp;
  x1 : Timestamp;
  fillcolor : string
}.

Definition GREEN_FILL : string := "rgba(34,197,94,.10)".
Definition RED_FILL : string := "rgba(239,68,68,.10)".

Definition fill (r : Z) : string :=
  if decide (r = 1) then GREEN_FILL else RED_FILL.

(** One turn of [for i in range(1,len(data))]: the state is [s] and the
    rectangles added to the figure so far. *)
Definition vrect_step (dates : list Timestamp) (reg : list Z)
    (st : nat * list vrect) (i : nat) : option (nat * list vrect) :=
  let '(s, fig) := st in
  ri ← reg !! i;
  rp ← reg !! (i - 1)%nat;
  if decide (ri ≠ rp) then
    d0 ← dates !! s;
    d1 ← dates !! (i - 1)%nat;
    Some (i, fig ++ [mkVrect d0 d1 (fill rp)])
  else Some (s, fig).

Fixpoint vrect_loop (dates : list Timestamp) (reg : list Z)
    (st : nat * list vrect) (range : list nat) : option (nat * list vrect) :=
  match range with
  | [] => Some st
  | i :: rest => st' ← vrect_step dates reg st i; vrect_loop dates reg st' rest
  end.

(** The loop and the rectangle added after it; [None] when an [.iloc]
    is out of range. *)
Definition regime_vrects (dates : list Timestamp) (reg : list Z)
    : option (list vrect) :=
  '(s, fig) ← vrect_loop dates reg (0%nat, []) (seq 1 (length dates - 1));
  d0 ← dates !! s;
  d1 ← last dates;
  rl ← last reg;
  Some (fig ++ [mkVrect d0 d1 (fill rl)]).

(** ** The script *)

(** What the script shows, in order. *)
Inductive event : Type :=
  | PageStyle
  | SidebarSuccess (name : string)
  | StError (msg : string)
  | HeaderBadge
  | KpiCards (k : Kpis)
  | PriceChart (d : Derived) (shapes : list vrect)
  | VolumeChart (volume : list (option Q))
  | DrawdownChart (dd : list float)
  | VolatilityChart (volR : list (option surd)).

Inductive exn : Type :=
  | FileNotFoundError (msg : string)
  | IndexError.

(** How a run ends: normally, by an exception, or by [st.stop()]. *)
Inductive outcome (A : Type) : Type :=
  | Ret (a : A)
  | Raise (e : exn)
  | Stop.
Arguments Ret {A} a.
Arguments Raise {A} e.
Arguments Stop {A}.

(** A computation of the script: it appends to the log of events. *)
Definition M (A : Type) : Type := list event → outcome A * list event.

Definition ret {A} (a : A) : M A := λ log, (Ret a, log).

Definition bind {A B} (m : M A) (k : A → M B) : M B :=
  λ log,
    match m log with
    | (Ret a, log') => k a log'
    | (Raise e, log') => (Raise e, log')
    | (Stop, log') => (Stop, log')
    end.

Definition emit (e : event) : M unit := λ log, (Ret (), log ++ [e]).
Definition raise {A} (e : exn) : M A := λ log, (Raise e, log).
Definition st_stop {A} : M A := λ log, (Stop, log).

(** An indexing that raises [IndexError] out of range. *)
Definition iloc {A} (o : option A) : M A :=
  match o with
  | Some a => ret a
  | None => raise IndexError
  end.

Notation "x <- m ;; k" := (bind m (λ x, k))
  (at level 100, m at next level, right associativity).
Notation "m ;; k" := (bind m (λ _, k))
  (at level 100, right associativity).

Definition candidates : list string :=
  ["AIRBUS_2026-01-16.txt"; "AIRBUS_2026-01-16"].

(** [for p in [...]: if p.exists(): ...] followed by the [raise]. *)
Fixpoint load_from (fs : FileSystem) (ps : list string) : M (list Bar) :=
  match ps with
  | [] => raise (FileNotFoundError "AIRBUS_2026-01-16.txt introuvable")
  | p :: rest =>
      match fs !! p with
      | Some tbl =>
          emit (SidebarSuccess p) ;;
          ret (sort_values (dropna tbl))
      | None => load_from fs rest
      end
  end.

(** [st.cache_data] only memoises the call. *)
Definition load_data (fs : FileSystem) : M (list Bar) :=
  load_from fs candidates.

(** The script from its style sheet to its last chart, for given files
    and widget values. *)
Definition app (fs : FileSystem) (w : Widgets) : M unit :=
  emit PageStyle ;;
  df <- load_data fs ;;
  let data := date_filter w df in
  (if decide (length data < 15)%nat
   then emit (StError "Pas assez de données") ;; st_stop
   else ret ()) ;;
  let d := features w data in
  k <- iloc (kpis data d) ;;
  emit HeaderBadge ;;
  emit (KpiCards k) ;;
  shapes <- iloc (regime_vrects (date <$> data) (col_reg d)) ;;
  emit (PriceChart d shapes) ;;
  emit (VolumeChart (vol <$> data)) ;;
  emit (DrawdownChart (col_dd d)) ;;
  emit (VolatilityChart (col_volR d)).

Definition run {A} (m : M A) : outcome A * list event := m [].

(** ** Vocabulary of the properties *)

(** The file [load_data] reads: the first candidate that exists. *)
Fixpoint resolve (fs : FileSystem) (ps : list string)
    : option (string * list RawRow) :=
  match ps with
  | [] => None
  | p :: rest =>
      match fs !! p with
      | Some tbl => Some (p, tbl)
      | None => resolve fs rest
      end
  end.


(** A run of rows [i_start .. i_end] (inclusive) sharing one regime. *)
Record interval : Type := mkInterval {
  i_start : nat;
  i_end : nat;
  i_regime : Z
}.

Definition covers (iv : interval) (i : nat) : Prop :=
  (i_start iv ≤ i ≤ i_end iv)%nat.

(** The rectangle [v] is the one drawn for the interval [iv]. *)
Definition shades (dates : list Timestamp) (iv : interval) (v : vrect) : Prop :=
  dates !! i_start iv = Some (x0 v) ∧
  dates !! i_end iv = Some (x1 v) ∧
  fillcolor v = fill (i_regime iv).

(** [segs] cuts the rows [0 .. n-1] of [reg] into runs: each interval is
    non-empty and holds rows of its own regime only, the first starts at
    row 0, the last ends at row [n-1], each starts right after the
    previous one ends, and two neighbours differ in regime. *)
Record segmentation (reg : list Z) (n : nat) (segs : list interval) : Prop := {
  seg_rows : ∀ k iv, segs !! k = Some iv →
    (i_start iv ≤ i_end iv)%nat ∧
    ∀ i, covers iv i → reg !! i = Some (i_regime iv);
  seg_first : ∀ iv, segs !! 0%nat = Some iv → i_start iv = 0%nat;
  seg_last : ∀ iv, last segs = Some iv → S (i_end iv) = n;
  seg_next : ∀ k iv iv', segs !! k = Some iv → segs !! S k = Some iv' →
    i_start iv' = S (i_end iv) ∧ i_regime iv ≠ i_regime iv';
  seg_cover : ∀ i, (i < n)%nat → ∃ k iv, segs !! k = Some iv ∧ covers iv i;
  seg_once : ∀ i k k' iv iv', segs !! k = Some iv → segs !! k' = Some iv' →
    covers iv i → covers iv' i → k = k'
}.





(** [closed reg segs a]: [segs] cuts the rows [0 .. a-1] of [reg] into
    consecutive runs, each of one regime and each followed by a row (if
    any) of another regime.  Built in the order the loop adds them. *)
Inductive closed (reg : list Z) : list interval → nat → Prop :=
  | closed_nil : closed reg [] 0
  | closed_snoc segs a e r :
      closed reg segs a →
      (a ≤ e)%nat →
      (∀ i, (a ≤ i ≤ e)%nat → reg !! i = Some r) →
      (∀ r', reg !! S e = Some r' → r' ≠ r) →
      closed reg (segs ++ [mkInterval a e r]) (S e).

(** ** Sample inputs *)

Definition day (n : Z) : Timestamp := n * ns_per_day.


Definition quote (d : Z) (c : Q) : RawRow :=
  mkRaw (Some (day d)) (Some c) (Some c) (Some c) (Some c) (Some 1000%Q).


(** Two lines of the same day. *)
Definition files_same_day : FileSystem :=
  {[ "AIRBUS_2026-01-16.txt" := [quote 20104 150; quote 20104 151] ]}.

Definition files_two_days : FileSystem :=
  {[ "AIRBUS_2026-01-16.txt" := [quote 20105 151; quote 20104 150] ]}.


Definition default_widgets : Widgets := mkWidgets 20104 20469 20 50 20.

Definition bar (d : Z) (c : Q) : Bar :=
  mkBar (day d) (Some c) (Some c) (Some c) c (Some 1000%Q).

(** Consecutive days from day 20104 on, with the given closes. *)
Definition bars_of (closes : list Q) : list Bar :=
  imap (λ i c, bar (20104 + Z.of_nat i) c) closes.

Definition falling_bars : list Bar := bars_of [100; 90; 80; 70; 75]%Q.

(** Twenty rising closes 100, 101, ..., 119 with windows 5, 10 and 3. *)
Definition rising_bars : list Bar :=
  bars_of ((λ i, inject_Z (100 + Z.of_nat i)) <$> seq 0 20).

Definition scenario_widgets : Widgets := mkWidgets 20104 20469 5 10 3.



(** Three days; the high is missing on the first, the volume on the
    first and the last. *)
Definition bars_missing_cells : list Bar :=
  [ mkBar (day 20104) (Some 150%Q) None (Some 149%Q) 150%Q None;
    mkBar (day 20105) (Some 150%Q) (Some 153%Q) (Some 149%Q) 151%Q
      (Some 1000%Q);
    mkBar (day 20106) (Some 151%Q) (Some 152%Q) (Some 150%Q) 152%Q None ].

(** Both candidate files present, with different content. *)
Definition files_both : FileSystem :=
  {[ "AIRBUS_2026-01-16.txt" := [quote 20104 150];
     "AIRBUS_2026-01-16" := [quote 20104 999] ]}.

(** Only the name without extension is present. *)
Definition files_no_extension : FileSystem :=
  {[ "AIRBUS_2026-01-16" := [quote 20104 999] ]}.

(** A line with only its date and close readable, one without close. *)
Definition files_partial_lines : FileSystem :=
  {[ "AIRBUS_2026-01-16.txt" :=
       [ mkRaw (Some (day 20105)) None None None (Some 151%Q) None;
         mkRaw (Some (day 20104)) (Some 150%Q) (Some 150%Q) (Some 150%Q)
           None (Some 1000%Q) ] ]}.

(** [df["date"].min()] and [df["date"].max()]: NaT on an empty column. *)
Definition date_min (df : list Bar) : option Timestamp :=
  match date <$> df with
  | [] => None
  | d :: ds => Some (foldl Z.min d ds)
  end.

Definition date_max (df : list Bar) : option Timestamp :=
  match date <$> df with
  | [] => None
  | d :: ds => Some (foldl Z.max d ds)
  end.

(** The days the two date inputs propose: [df["date"].min().date()] and
    [df["date"].max().date()]. *)
Definition default_range (df : list Bar) : option (Z * Z) :=
  lo ← date_min df;
  hi ← date_max df;
  Some (dt_date lo, dt_date hi).

(** Twenty quoted days in the file. *)
Definition files_twenty_days : FileSystem :=
  {[ "AIRBUS_2026-01-16.txt" :=
       (λ i, quote (20104 + Z.of_nat i) (150 + inject_Z (Z.of_nat i)))
         <$> seq 0 20 ]}.


(** A week inside the twenty days, and the fortnight around it. *)
Definition week_widgets : Widgets := mkWidgets 20108 20114 20 50 20.
Definition fortnight_widgets : Widgets := mkWidgets 20106 20119 20 50 20.


(** The displays that show neither a moving average nor the rolling
    volatility. *)
Definition slider_free (e : event) : bool :=
  match e with
  | PriceChart _ _ | VolatilityChart _ => false
  | _ => true
  end.

(** The same twenty days seen with other windows. *)
Definition other_sliders : Widgets := mkWidgets 20104 20469 7 31 12.

(** ** Figures and their styling *)

(** The value of a figure property: a string or a number. *)
Inductive prop : Type :=
  | PStr (s : string)
  | PNum (n : Z).

(** A plotly figure, as far as the script touches it: its traces (by
    name), its shapes, the text of its title, and the other properties of
    its layout and of its x and y axes.  A nested property is keyed by
    its path ([font.color]). *)
Record Figure : Type := mkFigure {
  fig_traces : list string;
  fig_shapes : list vrect;
  fig_title : option string;
  fig_layout : gmap string prop;
  fig_xaxes : gmap string prop;
  fig_yaxes : gmap string prop
}.

Definition WHITE : string := "#FFFFFF".

(** [update_layout], [update_xaxes], [update_yaxes] on properties other
    than the title: those given are set, the others are kept. *)
Definition update (kw : list (string * prop)) (m : gmap string prop)
    : gmap string prop :=
  foldr (λ '(k, v) acc, <[k := v]> acc) m kw.

(** [dark(fig, title, h)]. *)
Definition dark (fig : Figure) (title : string) (h : Z) : Figure :=
  {| fig_traces := fig_traces fig;
     fig_shapes := fig_shapes fig;
     fig_title := Some title;
     fig_layout :=
       update [("height", PNum h);
               ("paper_bgcolor", PStr "rgba(0,0,0,0)");
               ("plot_bgcolor", PStr "rgba(255,255,255,.02)");
               ("font.color", PStr WHITE);
               ("legend.bgcolor", PStr "rgba(0,0,0,0)");
               ("margin.l", PNum 40);
               ("margin.r", PNum 20);
               ("margin.t", PNum 60);
               ("margin.b", PNum 40)]
         (fig_layout fig);
     fig_xaxes :=
       update [("gridcolor", PStr "rgba(255,255,255,.06)")] (fig_xaxes fig);
     fig_yaxes :=
       update [("gridcolor", PStr "rgba(255,255,255,.06)")] (fig_yaxes fig)
  |}.




(** * Properties *)

(** ** DataLoader *)

#[global] Instance date_le_total : Total date_le.
Proof. intros a b. unfold date_le. lia. Qed.

#[global] Instance date_le_trans : Transitive date_le.
Proof. intros a b c. unfold date_le. lia. Qed.

(** [load_from] reads the file [resolve] designates, whatever the log. *)
Lemma load_from_resolve fs ps log :
  load_from fs ps log =
    match resolve fs ps with
    | Some (p, tbl) =>
        (Ret (sort_values (dropna tbl)), log ++ [SidebarSuccess p])
    | None =>
        (Raise (FileNotFoundError "AIRBUS_2026-01-16.txt introuvable"), log)
    end.
Proof.
  induction ps as [|p rest IH]; simpl; [done|].
  destruct (fs !! p) as [tbl|]; [done | apply IH].
Qed.

Lemma load_data_resolve fs log :
  load_data fs log =
    match resolve fs candidates with
    | Some (p, tbl) =>
        (Ret (sort_values (dropna tbl)), log ++ [SidebarSuccess p])
    | None =>
        (Raise (FileNotFoundError "AIRBUS_2026-01-16.txt introuvable"), log)
    end.
Proof. apply load_from_resolve. Qed.

Lemma load_data_Ret fs df log :
  run (load_data fs) = (Ret df, log) →
  ∃ p tbl, resolve fs candidates = Some (p, tbl) ∧
           df = sort_values (dropna tbl) ∧ log = [SidebarSuccess p].
Proof.
  unfold run. rewrite load_data_resolve.
  destruct (resolve fs candidates) as [[p tbl]|]; [|done].
  intros [= <- <-]. by exists p, tbl.
Qed.

Lemma sort_values_Sorted df : Sorted date_le (sort_values df).
Proof. apply (Sorted_merge_sort date_le). Qed.

Lemma sort_values_Permutation df : sort_values df ≡ₚ df.
Proof. apply (merge_sort_Permutation date_le). Qed.

Lemma sort_values_nil_inv df : sort_values df = [] → df = [].
Proof.
  intros H. apply Permutation_nil_r. rewrite <- H.
  symmetry. apply sort_values_Permutation.
Qed.

(** Two neighbours of a sorted list are related. *)
Lemma Sorted_lookup_S {A} (R : relation A) (l : list A) i a b :
  Sorted R l → l !! i = Some a → l !! S i = Some b → R a b.
Proof.
  intros Hs. revert i. induction Hs as [|x l Hs IH Hd]; intros i; [done|].
  destruct i as [|i]; simpl.
  - intros [= ->] Hb. destruct Hd as [|y l' Hxy]; [done|].
    simpl in Hb. by injection Hb as ->.
  - apply IH.
Qed.





(** C2, as stated, fails: two lines of the same day both survive, side
    by side. *)
Lemma load_data_keeps_equal_dates :
  ∃ df log a b,
    run (load_data files_same_day) = (Ret df, log) ∧
    df !! 0%nat = Some a ∧ df !! 1%nat = Some b ∧ ¬ date a < date b.
Proof.
  eexists _, _, _, _. split; [vm_compute; reflexivity|].
  split; [reflexivity|]. split; [reflexivity|]. simpl. lia.
Qed.

(** C2 (amended): two consecutive rows of a loaded series have
    non-decreasing dates, and strictly increasing ones when no two rows
    kept by the cleaning share a date. *)
Theorem load_data_sorted fs df log :
  run (load_data fs) = (Ret df, log) →
  (∀ i a b, df !! i = Some a → df !! S i = Some b → date a ≤ date b) ∧
  (∀ p tbl, resolve fs candidates = Some (p, tbl) →
     NoDup (date <$> dropna tbl) →
     ∀ i a b, df !! i = Some a → df !! S i = Some b → date a < date b).
Proof.
  intros (p & tbl & Hres & -> & _)%load_data_Ret.
  assert (Hle : ∀ i a b, sort_values (dropna tbl) !! i = Some a →
                 sort_values (dropna tbl) !! S i = Some b → date a ≤ date b).
  { intros i a b Ha Hb.
    apply (Sorted_lookup_S date_le _ i a b (sort_values_Sorted _) Ha Hb). }
  split; [exact Hle|].
  intros p' tbl' Hres' Hnd i a b Ha Hb.
  rewrite Hres in Hres'. injection Hres' as <- <-.
  assert (Hnd' : NoDup (date <$> sort_values (dropna tbl))).
  { by rewrite sort_values_Permutation. }
  assert (date a ≠ date b).
  { intros Heq.
    assert (i = S i); [|lia].
    eapply NoDup_lookup; [exact Hnd'| |].
    - rewrite list_lookup_fmap, Ha. reflexivity.
    - rewrite list_lookup_fmap, Hb. simpl. by rewrite Heq. }
  specialize (Hle i a b Ha Hb). lia.
Qed.

Lemma load_data_sorted_witness :
  ∃ (df : list Bar) (a b : Bar),
    run (load_data files_two_days)
      = (Ret df, [SidebarSuccess "AIRBUS_2026-01-16.txt"]) ∧
    df !! 0%nat = Some a ∧ df !! 1%nat = Some b ∧
    date a ≤ date b ∧ date a < date b.
Proof.
  pose (df := sort_values (dropna [quote 20105 151; quote 20104 150])).
  assert (Hrun : run (load_data files_two_days)
                 = (Ret df, [SidebarSuccess "AIRBUS_2026-01-16.txt"])).
  { vm_compute. reflexivity. }
  destruct (load_data_sorted _ _ _ Hrun) as [Hle Hlt].
  assert (Hres : resolve files_two_days candidates
                 = Some ("AIRBUS_2026-01-16.txt",
                         [quote 20105 151; quote 20104 150])).
  { vm_compute. reflexivity. }
  assert (Hnd : NoDup (date <$> dropna [quote 20105 151; quote 20104 150])).
  { vm_compute. apply (bool_decide_unpack _). vm_compute. exact I. }
  exists df, (mkBar (day 20104) (Some 150%Q) (Some 150%Q) (Some 150%Q)
                150%Q (Some 1000%Q)),
    (mkBar (day 20105) (Some 151%Q) (Some 151%Q) (Some 151%Q)
       151%Q (Some 1000%Q)).
  split; [exact Hrun|].
  split; [vm_compute; reflexivity|].
  split; [vm_compute; reflexivity|].
  split.
  - apply (Hle 0%nat); vm_compute; reflexivity.
  - apply (Hlt _ _ Hres Hnd 0%nat); vm_compute; reflexivity.
Defined.

(** ** The 15-row gate *)



(** ** The running peak and the drawdown *)

Lemma cummax_from_length m s : length (cummax_from m s) = length s.
Proof. revert m. induction s as [|x tl IH]; intros m; simpl; [done|]. by rewrite IH. Qed.

Lemma cummax_length s : length (cummax s) = length s.
Proof. destruct s; simpl; [done|]. by rewrite cummax_from_length. Qed.

(** Every cell of [cummax_from m s] is at least [m]. *)
Lemma cummax_from_ge_start m s i p :
  cummax_from m s !! i = Some p → (m <= p)%Q.
Proof.
  revert m i. induction s as [|x tl IH]; intros m i; simpl; [done|].
  destruct i as [|i]; simpl.
  - intros [= <-]. apply Q.le_max_l.
  - intros H%IH. eapply Qle_trans; [apply (Q.le_max_l m x) | exact H].
Qed.

(** Every cell of [cummax_from m s] is at least the cell of [s] below it. *)
Lemma cummax_from_ge_cell m s i p x :
  cummax_from m s !! i = Some p → s !! i = Some x → (x <= p)%Q.
Proof.
  revert m i. induction s as [|y tl IH]; intros m i; simpl; [done|].
  destruct i as [|i]; simpl.
  - intros [= <-] [= <-]. apply Q.le_max_r.
  - apply IH.
Qed.

Lemma cummax_from_mono m s i a b :
  cummax_from m s !! i = Some a → cummax_from m s !! S i = Some b →
  (a <= b)%Q.
Proof.
  revert m i. induction s as [|x tl IH]; intros m i; simpl; [done|].
  destruct i as [|i]; simpl.
  - intros [= <-]. apply cummax_from_ge_start.
  - apply IH.
Qed.

Lemma cummax_mono s i a b :
  cummax s !! i = Some a → cummax s !! S i = Some b → (a <= b)%Q.
Proof.
  destruct s as [|x tl]; simpl; [done|].
  destruct i as [|i]; simpl.
  - intros [= <-]. apply cummax_from_ge_start.
  - apply cummax_from_mono.
Qed.

Lemma cummax_ge_cell s i p x :
  cummax s !! i = Some p → s !! i = Some x → (x <= p)%Q.
Proof.
  destruct s as [|y tl]; simpl; [done|].
  destruct i as [|i]; simpl.
  - intros [= <-] [= <-]. apply Qle_refl.
  - apply cummax_from_ge_cell.
Qed.

(** The peak is one of the closes seen so far. *)
Lemma cummax_from_attained m s i p :
  cummax_from m s !! i = Some p →
  p = m ∨ ∃ j x, (j ≤ i)%nat ∧ s !! j = Some x ∧ p = x.
Proof.
  revert m i. induction s as [|y tl IH]; intros m i; simpl; [done|].
  assert (Hmax : Qmax m y = m ∨ Qmax m y = y).
  { unfold Qmax, GenericMinMax.gmax. destruct (m ?= y)%Q; auto. }
  destruct i as [|i]; simpl.
  - intros [= <-]. destruct Hmax as [->| ->]; [by left|].
    right. exists 0%nat, y. done.
  - intros [->|(j & x & Hj & Hx & ->)]%IH.
    + destruct Hmax as [->| ->]; [by left|].
      right. exists 0%nat, y. split; [lia|done].
    + right. exists (S j), x. split; [lia|done].
Qed.

Lemma cummax_mono_le s j i a b :
  (j ≤ i)%nat → cummax s !! j = Some a → cummax s !! i = Some b →
  (a <= b)%Q.
Proof.
  intros Hj Ha. revert b. induction Hj as [|i Hj IH]; intros b Hb.
  - rewrite Ha in Hb. injection Hb as ->. apply Qle_refl.
  - assert (Hlt : (i < length (cummax s))%nat).
    { apply lookup_lt_Some in Hb. lia. }
    destruct (lookup_lt_is_Some_2 _ _ Hlt) as [r Hr].
    eapply Qle_trans; [apply (IH r Hr)|].
    eapply cummax_mono; eauto.
Qed.

(** [cummax] is the running maximum: an upper bound of the cells up to
    row [i], attained by one of them. *)
Lemma cummax_running_max s i p :
  cummax s !! i = Some p →
  (∀ j x, (j ≤ i)%nat → s !! j = Some x → (x <= p)%Q) ∧
  (∃ j, (j ≤ i)%nat ∧ s !! j = Some p).
Proof.
  intros Hp. split.
  - intros j x Hj Hx.
    assert (Hlt : (j < length (cummax s))%nat).
    { rewrite cummax_length. by eapply lookup_lt_Some. }
    destruct (lookup_lt_is_Some_2 _ _ Hlt) as [q Hq].
    eapply Qle_trans; [exact (cummax_ge_cell s j q x Hq Hx)|].
    exact (cummax_mono_le s j i q p Hj Hq Hp).
  - destruct s as [|y tl]; simpl in *; [done|].
    destruct i as [|i]; simpl in *.
    + exists 0%nat. done.
    + apply cummax_from_attained in Hp as [->|(j & x & Hj & Hx & ->)].
      * exists 0%nat. split; [lia|done].
      * exists (S j). split; [lia|done].
Qed.

(** C7: the running peak never decreases from one row to the next. *)
Theorem col_peak_non_decreasing w data i a b :
  col_peak (features w data) !! i = Some a →
  col_peak (features w data) !! S i = Some b →
  (a <= b)%Q.
Proof. apply cummax_mono. Qed.

Lemma col_peak_non_decreasing_witness :
  col_peak (features default_widgets falling_bars) !! 3%nat = Some 100%Q ∧
  col_peak (features default_widgets falling_bars) !! 4%nat = Some 100%Q ∧
  (100 <= 100)%Q.
Proof.
  split; [reflexivity|]. split; [reflexivity|].
  apply (col_peak_non_decreasing default_widgets falling_bars 3);
    reflexivity.
Defined.

Lemma fdiv_pos a b : (0 < b)%Q → fdiv a b = Fin (a / b).
Proof.
  intros Hb. unfold fdiv, Qeqb.
  destruct (Qeq_bool b 0) eqn:E; [|done].
  apply Qeq_bool_iff in E. rewrite E in Hb. by apply Qlt_irrefl in Hb.
Qed.

Lemma Qdiv_sub1_le a b : (0 < b)%Q → (a <= b)%Q → (a / b - 1 <= 0)%Q.
Proof.
  intros Hb Hab.
  assert (a / b <= 1)%Q; [|lra].
  apply Qle_shift_div_r; [done | lra].
Qed.

Lemma Qdiv_sub1_zero a b : (0 < b)%Q → (a / b - 1 == 0)%Q ↔ (a == b)%Q.
Proof.
  intros Hb. split; intros H.
  - assert (Hq : (a / b == 1)%Q) by lra.
    rewrite <- (Qmult_div_r a b) by lra. rewrite Hq. ring.
  - rewrite H. field. lra.
Qed.

(** C6: on a series of positive closes, every row has a finite drawdown
    that is at most 0, and that is 0 exactly where the close equals the
    running peak. *)
Theorem col_dd_non_positive w data :
  Forall (λ b, (0 < clot b)%Q) data →
  ∀ i b, data !! i = Some b →
    ∃ p q, col_peak (features w data) !! i = Some p ∧
           col_dd (features w data) !! i = Some (Fin q) ∧
           (q <= 0)%Q ∧ ((q == 0)%Q ↔ (clot b == p)%Q).
Proof.
  intros Hpos i b Hb. simpl.
  assert (Hc : (clot <$> data) !! i = Some (clot b)).
  { by rewrite list_lookup_fmap, Hb. }
  assert (Hlt : (i < length (cummax (clot <$> data)))%nat).
  { rewrite cummax_length. by eapply lookup_lt_Some. }
  destruct (lookup_lt_is_Some_2 _ _ Hlt) as [p Hp].
  assert (Hle : (clot b <= p)%Q) by (eapply cummax_ge_cell; eauto).
  assert (Hb0 : (0 < clot b)%Q).
  { rewrite Forall_lookup in Hpos. by apply (Hpos i). }
  assert (Hp0 : (0 < p)%Q) by lra.
  exists p, (clot b / p - 1)%Q. split; [done|]. split.
  - rewrite lookup_zip_with, Hc, Hp. simpl. by rewrite fdiv_pos.
  - split; [by apply Qdiv_sub1_le | by apply Qdiv_sub1_zero].
Qed.

Lemma col_dd_non_positive_witness :
  ∃ p q, col_peak (features default_widgets falling_bars) !! 3%nat = Some p ∧
         col_dd (features default_widgets falling_bars) !! 3%nat
           = Some (Fin q) ∧
         (q <= 0)%Q ∧ ((q == 0)%Q ↔ (70 == p)%Q).
Proof.
  apply (col_dd_non_positive default_widgets falling_bars
           ltac:(repeat constructor) 3%nat (bar 20107 70)).
  reflexivity.
Defined.

(** ** Rolling windows *)

Lemma rolling_length {A B} w obs (agg : list Q → option B) (s : list A) :
  length (rolling w obs agg s) = length s.
Proof. unfold rolling. by rewrite length_fmap, length_seq. Qed.

Lemma rolling_lookup {A B} w obs (agg : list Q → option B) (s : list A) i :
  (i < length s)%nat →
  rolling w obs agg s !! i =
    Some (if decide (w ≤ length (omap obs (window w i s)))%nat
          then agg (omap obs (window w i s)) else None).
Proof.
  intros Hi. unfold rolling.
  rewrite list_lookup_fmap, lookup_seq_lt by done. reflexivity.
Qed.

Lemma length_omap_le {A B} (f : A → option B) (l : list A) :
  (length (omap f l) ≤ length l)%nat.
Proof.
  induction l as [|x l IH]; csimpl; [done|].
  destruct (f x); simpl; lia.
Qed.

Lemma window_length_le {A} w i (s : list A) :
  (length (window w i s) ≤ S i)%nat.
Proof. unfold window. rewrite length_take. lia. Qed.

(** With fewer than [w] rows of history the aggregate is undefined. *)
Lemma rolling_short_history {A B} w obs (agg : list Q → option B)
    (s : list A) i :
  (i < length s)%nat → (S i < w)%nat → rolling w obs agg s !! i = Some None.
Proof.
  intros Hi Hw. rewrite rolling_lookup by done.
  destruct (decide _) as [Hle|]; [|done].
  pose proof (length_omap_le obs (window w i s)).
  pose proof (window_length_le w i s). lia.
Qed.



Lemma Qltb_lt a b : Qltb a b = true ↔ (a < b)%Q.
Proof.
  unfold Qltb. rewrite negb_true_iff.
  destruct (Qle_bool b a) eqn:E.
  - apply Qle_bool_iff in E. split; [done|].
    intros H. by apply Qlt_not_le in H.
  - split; [intros _|done].
    apply Qnot_le_lt. intros H. apply Qle_bool_iff in H. congruence.
Qed.

Lemma col_reg_lookup w data i :
  (i < length data)%nat →
  ∃ a b, col_maF (features w data) !! i = Some a ∧
         col_maS (features w data) !! i = Some b ∧
         col_reg (features w data) !! i = Some (Z.b2z (gt_nan a b)).
Proof.
  intros Hi. unfold col_reg. simpl.
  assert (Hc : (i < length (clot <$> data))%nat) by by rewrite length_fmap.
  exists (if decide (maF w ≤ length (omap Some (window (maF w) i (clot <$> data))))%nat
          then mean (omap Some (window (maF w) i (clot <$> data))) else None),
    (if decide (maS w ≤ length (omap Some (window (maS w) i (clot <$> data))))%nat
          then mean (omap Some (window (maS w) i (clot <$> data))) else None).
  rewrite lookup_zip_with, !rolling_lookup by done. done.
Qed.

(** C4: the regime flag of a row is 1 exactly when both moving averages
    are defined there and the short one is above the long one; where
    either is undefined, in particular with fewer than a window of rows
    of history, the flag is 0. *)
Theorem col_reg_regime w data i :
  (i < length data)%nat →
  (col_reg (features w data) !! i = Some 1 ↔
     ∃ a b, col_maF (features w data) !! i = Some (Some a) ∧
            col_maS (features w data) !! i = Some (Some b) ∧ (b < a)%Q) ∧
  (col_maF (features w data) !! i = Some None ∨
   col_maS (features w data) !! i = Some None →
     col_reg (features w data) !! i = Some 0) ∧
  ((S i < maF w)%nat ∨ (S i < maS w)%nat →
     col_reg (features w data) !! i = Some 0).
Proof.
  intros Hi.
  destruct (col_reg_lookup w data i Hi) as (oa & ob & Ha & Hb & Hr).
  assert (Hundef : col_maF (features w data) !! i = Some None ∨
                   col_maS (features w data) !! i = Some None →
                   col_reg (features w data) !! i = Some 0).
  { rewrite Ha, Hb, Hr. intros [[= ->]|[= ->]]; [done|].
    by destruct oa. }
  split; [|split; [exact Hundef|]].
  - rewrite Ha, Hb, Hr. split.
    + destruct oa as [a|], ob as [b|]; simpl; try done.
      destruct (Qltb b a) eqn:E; [|done].
      intros _. exists a, b. by rewrite <- Qltb_lt.
    + intros (a & b & [= ->] & [= ->] & Hlt).
      apply Qltb_lt in Hlt. simpl. by rewrite Hlt.
  - intros Hshort. apply Hundef.
    assert (Hc : (i < length (clot <$> data))%nat) by by rewrite length_fmap.
    destruct Hshort; [left|right]; simpl; by apply rolling_short_history.
Qed.

Lemma col_reg_regime_witness :
  col_reg (features scenario_widgets rising_bars) !! 9%nat = Some 1 ∧
  col_reg (features scenario_widgets rising_bars) !! 3%nat = Some 0.
Proof.
  assert (H9 : (9 < length rising_bars)%nat) by (vm_compute; lia).
  assert (H3 : (3 < length rising_bars)%nat) by (vm_compute; lia).
  split.
  - apply (proj1 (col_reg_regime scenario_widgets rising_bars 9 H9)).
    exists (535 # 5)%Q, (1045 # 10)%Q.
    split; [vm_compute; reflexivity|].
    split; [vm_compute; reflexivity|]. reflexivity.
  - apply (proj2 (proj2 (col_reg_regime scenario_widgets rising_bars 3 H3))).
    left. vm_compute. lia.
Defined.

(** ** Square roots *)

Lemma Q2R_nonneg q : (0 <= q)%Q → (0 <= Q2R q)%R.
Proof. intros H. apply Qle_Rle in H. by rewrite RMicromega.Q2R_0 in H. Qed.

(** The product of two roots is the root of the product. *)
Lemma surd_mul_value a b :
  (0 <= radicand a)%Q → (0 <= radicand b)%Q →
  surd_value (surd_mul a b) = (surd_value a * surd_value b)%R.
Proof.
  intros Ha Hb. unfold surd_value, surd_mul. simpl.
  rewrite Q2R_mult. apply sqrt_mult; by apply Q2R_nonneg.
Qed.

Lemma Qsum_nonneg xs : Forall (λ x, (0 <= x)%Q) xs → (0 <= Qsum xs)%Q.
Proof.
  induction 1 as [|x xs Hx _ IH]; simpl; [apply Qle_refl|].
  change 0%Q with (0 + 0)%Q. by apply Qplus_le_compat.
Qed.

Lemma ssd_nonneg m xs : (0 <= ssd m xs)%Q.
Proof.
  unfold ssd. apply Qsum_nonneg. apply Forall_fmap, Forall_true.
  intros x. simpl. unfold Qle. simpl. rewrite Z.mul_1_r.
  apply Z.square_nonneg.
Qed.

Lemma var_nonneg xs : (2 ≤ length xs)%nat → (0 <= var xs)%Q.
Proof.
  intros Hn. unfold var. apply Qle_shift_div_l.
  - unfold Qlen, Qlt, Qminus. simpl. lia.
  - rewrite Qmult_0_l. apply ssd_nonneg.
Qed.

(** Annualizing a standard deviation multiplies its value by the square
    root of 252. *)
Lemma annualize_std_value xs s :
  std xs = Some s →
  surd_value (annualize s) = (surd_value s * sqrt 252)%R.
Proof.
  unfold std. destruct (decide _) as [Hn|]; [|done]. intros [= <-].
  unfold annualize. rewrite surd_mul_value.
  - f_equal. unfold surd_value, np_sqrt. simpl. f_equal.
    unfold Q2R. simpl. lra.
  - simpl. by apply var_nonneg.
  - simpl. done.
Qed.

(** ** Returns and rolling volatility *)

Lemma pct_change_length s : length (pct_change s) = length s.
Proof.
  destruct s as [|x tl]; simpl; [done|].
  rewrite length_zip_with. simpl. lia.
Qed.












(** ** Determinism *)




(** ** KPIs over columns with missing cells *)

Lemma Qmax_cases a b : Qmax a b = a ∨ Qmax a b = b.
Proof. unfold Qmax, GenericMinMax.gmax. destruct (a ?= b)%Q; auto. Qed.

Lemma foldl_Qmax_spec l x :
  (foldl Qmax x l = x ∨ foldl Qmax x l ∈ l) ∧
  (x <= foldl Qmax x l)%Q ∧
  (∀ y, y ∈ l → (y <= foldl Qmax x l)%Q).
Proof.
  revert x. induction l as [|z l IH]; intros x; simpl.
  - split; [by left|]. split; [apply Qle_refl|]. by intros y Hy%elem_of_nil.
  - destruct (IH (Qmax x z)) as (Hin & Hge & Hall).
    split; [|split].
    + destruct Hin as [->|Hin]; [|right; by right].
      destruct (Qmax_cases x z) as [->| ->]; [by left|right; by left].
    + eapply Qle_trans; [apply (Q.le_max_l x z)|exact Hge].
    + intros y [->|Hy]%elem_of_cons; [|by apply Hall].
      eapply Qle_trans; [apply (Q.le_max_r x z)|exact Hge].
Qed.

(** [col_max] over the cells present. *)
Lemma col_max_spec s :
  match omap id s with
  | [] => col_max s = None
  | _ => ∃ m, col_max s = Some m ∧ m ∈ omap id s ∧
              ∀ x, x ∈ omap id s → (x <= m)%Q
  end.
Proof.
  unfold col_max. destruct (omap id s) as [|x l]; [done|].
  destruct (foldl_Qmax_spec l x) as (Hin & Hge & Hall).
  exists (foldl Qmax x l). split; [done|]. split.
  - destruct Hin as [->|Hin]; [by left|by right].
  - intros y [->|Hy]%elem_of_cons; [done|by apply Hall].
Qed.

(** C10: the KPIs [max_high] and [avg_vol] are the maximum and the mean
    of the cells present in their column: a missing cell is skipped, and
    each KPI is defined as soon as one cell of its column is present. *)
Theorem kpis_skip_missing_cells data d k :
  kpis data d = Some k →
  (omap id (haut <$> data) ≠ [] →
     ∃ m, max_high k = Some m ∧ m ∈ omap id (haut <$> data) ∧
          ∀ x, x ∈ omap id (haut <$> data) → (x <= m)%Q) ∧
  (omap id (vol <$> data) ≠ [] →
     avg_vol k = Some (Qsum (omap id (vol <$> data))
                       / Qlen (omap id (vol <$> data)))%Q) ∧
  (omap id (haut <$> data) = [] → max_high k = None) ∧
  (omap id (vol <$> data) = [] → avg_vol k = None).
Proof.
  unfold kpis. intros Hk.
  destruct (last (clot <$> data)) as [lc|]; [|done].
  destruct ((clot <$> data) !! 0%nat) as [fc|]; [|done].
  injection Hk as <-. simpl.
  pose proof (col_max_spec (haut <$> data)) as Hmax.
  unfold col_mean, mean.
  destruct (omap id (haut <$> data)) as [|h hs];
    destruct (omap id (vol <$> data)) as [|v vs];
    repeat split; intros; first [done | exact Hmax].
Qed.

Lemma kpis_skip_missing_cells_witness :
  ∃ k, kpis bars_missing_cells (features default_widgets bars_missing_cells)
         = Some k ∧
       max_high k = Some 153%Q ∧ avg_vol k = Some (1000 / 1)%Q.
Proof.
  eexists. split; [reflexivity|].
  destruct (kpis_skip_missing_cells bars_missing_cells
              (features default_widgets bars_missing_cells) _ eq_refl)
    as (Hmax & Havg & _).
  split.
  - reflexivity.
  - apply Havg. discriminate.
Defined.

(** ** RegimeSegmenter *)

Section closed_runs.
Context (reg : list Z).

Lemma closed_last segs a :
  closed reg segs a →
  match last segs with
  | Some iv => S (i_end iv) = a
  | None => a = 0%nat
  end.
Proof. destruct 1 as [|segs a e r _ _ _ _]; [done|]. by rewrite last_snoc. Qed.

Lemma closed_rows segs a k iv :
  closed reg segs a → segs !! k = Some iv →
  (i_start iv ≤ i_end iv)%nat ∧ (i_end iv < a)%nat ∧
  (∀ i, covers iv i → reg !! i = Some (i_regime iv)) ∧
  (∀ r', reg !! S (i_end iv) = Some r' → r' ≠ i_regime iv).
Proof.
  intros Hc. revert k iv.
  induction Hc as [|segs a e r Hc IH Hae Hrun Hmax]; intros k iv; [done|].
  intros [[_ Hk]|[_ <-]]%lookup_snoc_Some.
  - destruct (IH k iv Hk) as (? & ? & ? & ?).
    repeat split; [done|lia|done|done].
  - simpl. repeat split; [done|lia|exact Hrun|exact Hmax].
Qed.

Lemma closed_first segs a iv :
  closed reg segs a → segs !! 0%nat = Some iv → i_start iv = 0%nat.
Proof.
  induction 1 as [|segs a e r Hc IH Hae Hrun Hmax]; [done|].
  destruct segs as [|iv0 segs].
  - apply closed_last in Hc. simpl in Hc. subst a.
    by intros [= <-].
  - simpl. simpl in IH. exact IH.
Qed.

Lemma closed_next segs a k iv iv' :
  closed reg segs a →
  segs !! k = Some iv → segs !! S k = Some iv' →
  i_start iv' = S (i_end iv) ∧ i_regime iv ≠ i_regime iv'.
Proof.
  intros Hc. revert k iv iv'.
  induction Hc as [|segs a e r Hc IH Hae Hrun Hmax]; intros k iv iv';
    [done|].
  intros Hk [[Hlt Hk']|[Hlen <-]]%lookup_snoc_Some.
  - apply lookup_snoc_Some in Hk as [[_ Hk]|[Hk _]]; [|lia].
    by apply (IH k).
  - apply lookup_snoc_Some in Hk as [[_ Hk]|[Hk _]]; [|lia].
    assert (Hlast : last segs = Some iv).
    { rewrite last_lookup, <- Hlen. exact Hk. }
    pose proof (closed_last _ _ Hc) as Ha. rewrite Hlast in Ha.
    destruct (closed_rows _ _ _ _ Hc Hk) as (_ & _ & _ & Hdiff).
    simpl. split; [done|].
    intros Heq. apply (Hdiff r); [|done].
    rewrite Ha. apply Hrun. lia.
Qed.

Lemma closed_cover segs a i :
  closed reg segs a → (i < a)%nat →
  ∃ k iv, segs !! k = Some iv ∧ covers iv i.
Proof.
  induction 1 as [|segs a e r Hc IH Hae Hrun Hmax]; [lia|].
  intros Hi. destruct (decide (i < a)%nat) as [Hlt|Hge].
  - destruct (IH Hlt) as (k & iv & Hk & Hcov).
    exists k, iv. split; [|done].
    apply lookup_snoc_Some. left. split; [|done].
    by eapply lookup_lt_Some.
  - exists (length segs), (mkInterval a e r). split.
    + apply lookup_snoc_Some. by right.
    + unfold covers. simpl. lia.
Qed.

(** A later interval starts after an earlier one ends. *)
Lemma closed_ordered segs a k k' iv iv' :
  closed reg segs a → (k < k')%nat →
  segs !! k = Some iv → segs !! k' = Some iv' →
  (i_end iv < i_start iv')%nat.
Proof.
  intros Hc. revert k k' iv iv'.
  induction Hc as [|segs a e r Hc IH Hae Hrun Hmax]; intros k k' iv iv' Hkk;
    [done|].
  intros Hk [[Hlt Hk']|[Hlen <-]]%lookup_snoc_Some.
  - apply lookup_snoc_Some in Hk as [[_ Hk]|[Hk _]]; [|lia].
    by apply (IH k k').
  - apply lookup_snoc_Some in Hk as [[_ Hk]|[Hk _]]; [|lia].
    destruct (closed_rows _ _ _ _ Hc Hk) as (_ & Hend & _). simpl. lia.
Qed.

Lemma closed_once segs a i k k' iv iv' :
  closed reg segs a →
  segs !! k = Some iv → segs !! k' = Some iv' →
  covers iv i → covers iv' i → k = k'.
Proof.
  intros Hc Hk Hk' Hcov Hcov'. unfold covers in *.
  destruct (Nat.lt_trichotomy k k') as [Hlt|[Heq|Hgt]]; [|done|].
  - pose proof (closed_ordered _ _ _ _ _ _ Hc Hlt Hk Hk'). lia.
  - pose proof (closed_ordered _ _ _ _ _ _ Hc Hgt Hk' Hk). lia.
Qed.

(** Runs that reach the end of the column segment it. *)
Lemma closed_segmentation segs :
  closed reg segs (length reg) → (0 < length reg)%nat →
  segmentation reg (length reg) segs.
Proof.
  intros Hc Hn. split.
  - intros k iv Hk.
    destruct (closed_rows _ _ _ _ Hc Hk) as (? & _ & ? & _). done.
  - intros iv. by apply closed_first with (a := length reg).
  - intros iv Hlast. pose proof (closed_last _ _ Hc) as H.
    by rewrite Hlast in H.
  - intros k iv iv'. by apply closed_next with (a := length reg).
  - intros i. by apply closed_cover.
  - intros i k k' iv iv'. by apply closed_once with (a := length reg).
Qed.
End closed_runs.

(** The loop invariant, from row [j] to the end of the column: the
    rectangles drawn so far shade closed runs up to row [s], and the rows
    [s .. j-1] share the regime [r]. *)
Lemma vrect_loop_runs dates reg n :
  length dates = n → length reg = n →
  ∀ m j s fig segs r,
    (j + m = n)%nat → (s < j)%nat →
    closed reg segs s →
    Forall2 (shades dates) segs fig →
    (∀ i, (s ≤ i < j)%nat → reg !! i = Some r) →
    ∃ s' fig' segs' r',
      vrect_loop dates reg (s, fig) (seq j m) = Some (s', fig') ∧
      (s' < n)%nat ∧
      closed reg segs' s' ∧
      Forall2 (shades dates) segs' fig' ∧
      (∀ i, (s' ≤ i < n)%nat → reg !! i = Some r').
Proof.
  intros Hd Hr. induction m as [|m IH]; intros j s fig segs r Hj Hs Hc Hf Hrun.
  - exists s, fig, segs, r. simpl.
    replace n with j by lia. done.
  - simpl.
    assert (Hjn : (j < length reg)%nat) by lia.
    destruct (lookup_lt_is_Some_2 _ _ Hjn) as [ri Hri].
    rewrite Hri. simpl.
    rewrite (Hrun (j - 1)%nat) by lia. simpl.
    destruct (decide (ri ≠ r)) as [Hne|Heq].
    + assert (Hsd : (s < length dates)%nat) by lia.
      assert (Hjd : (j - 1 < length dates)%nat) by lia.
      destruct (lookup_lt_is_Some_2 _ _ Hsd) as [d0 Hd0].
      destruct (lookup_lt_is_Some_2 _ _ Hjd) as [d1 Hd1].
      rewrite Hd0, Hd1. simpl.
      apply (IH (S j) j _ (segs ++ [mkInterval s (j - 1) r]) ri);
        [lia|lia| | |].
      * replace j with (S (j - 1)) at 2 by lia.
        apply closed_snoc; [done|lia| |].
        -- intros i Hi. apply Hrun. lia.
        -- replace (S (j - 1)) with j by lia.
           intros r'. rewrite Hri. by intros [= <-].
      * apply Forall2_app; [done|].
        constructor; [|constructor]. done.
      * intros i Hi. by replace i with j by lia.
    + apply dec_stable in Heq. subst ri.
      apply (IH (S j) s fig segs r); [lia|lia|done|done|].
      intros i Hi. destruct (decide (i = j)) as [->|]; [done|].
      apply Hrun. lia.
Qed.

Lemma StronglySorted_lookup_le (l : list Z) i j a b :
  StronglySorted Z.le l → (i ≤ j)%nat →
  l !! i = Some a → l !! j = Some b → a ≤ b.
Proof.
  intros Hs. revert i j. induction Hs as [|x l Hs IH Hall]; intros i j; [done|].
  destruct i as [|i], j as [|j]; simpl; try lia.
  - intros _ [= ->] [= ->]. lia.
  - intros _ [= ->] Hb. rewrite Forall_forall in Hall.
    apply Hall. by eapply list_elem_of_lookup_2.
  - intros Hij. apply IH. lia.
Qed.

(** On a non-empty column the loop ends, and its rectangles shade, one
    for one and in order, runs that reach the end of the column. *)
Lemma regime_vrects_closed dates reg :
  length dates = length reg → (0 < length reg)%nat →
  ∃ fig segs,
    regime_vrects dates reg = Some fig ∧
    Forall2 (shades dates) segs fig ∧
    closed reg segs (length reg) ∧
    (length reg = 1%nat → length fig = 1%nat).
Proof.
  intros Hlen Hn. unfold regime_vrects.
  destruct (lookup_lt_is_Some_2 reg 0%nat Hn) as [r0 Hr0].
  destruct (vrect_loop_runs dates reg (length reg) Hlen eq_refl
              (length reg - 1) 1 0 [] [] r0)
    as (s & fig & segs & r & Hloop & Hs & Hc & Hf & Hrun);
    [lia|lia|constructor|constructor| |].
  { intros i Hi. by replace i with 0%nat by lia. }
  rewrite Hlen, Hloop. simpl.
  assert (Hsd : (s < length dates)%nat) by lia.
  destruct (lookup_lt_is_Some_2 _ _ Hsd) as [d0 Hd0].
  assert (Hld : last dates = dates !! (length reg - 1)%nat).
  { rewrite last_lookup, Hlen. f_equal. lia. }
  assert (Hlr : last reg = Some r).
  { rewrite last_lookup. apply Hrun. lia. }
  assert (Hed : (length reg - 1 < length dates)%nat) by lia.
  destruct (lookup_lt_is_Some_2 _ _ Hed) as [d1 Hd1].
  rewrite Hd0, Hld, Hd1, Hlr. simpl.
  pose (segs' := segs ++ [mkInterval s (length reg - 1) r]).
  assert (Hc' : closed reg segs' (length reg)).
  { assert (Hend : S (length reg - 1) = length reg) by lia.
    assert (H : closed reg segs' (S (length reg - 1))); [|by rewrite Hend in H].
    apply closed_snoc; [done|lia| |].
    - intros i Hi. apply Hrun. lia.
    - intros r' Hr'. apply lookup_lt_Some in Hr'. lia. }
  eexists _, segs'. split; [reflexivity|]. split; [|split; [exact Hc'|]].
  - apply Forall2_app; [done|]. constructor; [|constructor]. done.
  - intros H1. rewrite H1 in Hloop. simpl in Hloop.
    injection Hloop as <- <-. done.
Qed.

(** C5: on a non-empty column the loop ends, and its rectangles shade,
    one for one and in order, intervals that cover every row exactly once,
    each starting right after the previous one ends, with neighbours of
    different regimes; a single row gives a single rectangle, and on
    sorted dates the rectangles follow one another in date order. *)
Theorem regime_vrects_segmentation dates reg :
  length dates = length reg → (0 < length reg)%nat →
  ∃ fig segs,
    regime_vrects dates reg = Some fig ∧
    Forall2 (shades dates) segs fig ∧
    segmentation reg (length reg) segs ∧
    (length reg = 1%nat → length fig = 1%nat) ∧
    (StronglySorted Z.le dates →
       ∀ k v, fig !! k = Some v →
         x0 v ≤ x1 v ∧ ∀ v', fig !! S k = Some v' → x1 v ≤ x0 v').
Proof.
  intros Hlen Hn.
  destruct (regime_vrects_closed dates reg Hlen Hn)
    as (fig & segs & Hfig & Hf & Hc & Hone).
  pose proof (closed_segmentation reg segs Hc Hn) as Hseg.
  exists fig, segs.
  split; [done|]. split; [done|]. split; [exact Hseg|]. split; [exact Hone|].
  intros Hsorted k v Hv.
  destruct (Forall2_lookup_r _ _ _ _ _ Hf Hv) as (iv & Hiv & Hx0 & Hx1 & _).
  split.
  - destruct (seg_rows _ _ _ Hseg k iv Hiv) as [Hse _].
    by apply (StronglySorted_lookup_le dates (i_start iv) (i_end iv)).
  - intros v' Hv'.
    destruct (Forall2_lookup_r _ _ _ _ _ Hf Hv')
      as (iv' & Hiv' & Hx0' & _ & _).
    destruct (seg_next _ _ _ Hseg k iv iv' Hiv Hiv') as [Hnext _].
    apply (StronglySorted_lookup_le dates (i_end iv) (i_start iv'));
      [done|lia|done|done].
Qed.

Lemma regime_vrects_segmentation_witness :
  ∃ fig segs,
    regime_vrects (date <$> rising_bars)
      (col_reg (features scenario_widgets rising_bars)) = Some fig ∧
    Forall2 (shades (date <$> rising_bars)) segs fig ∧
    segmentation (col_reg (features scenario_widgets rising_bars)) 20 segs.
Proof.
  destruct (regime_vrects_segmentation (date <$> rising_bars)
              (col_reg (features scenario_widgets rising_bars)))
    as (fig & segs & Hfig & Hf & Hseg & _).
  - vm_compute. reflexivity.
  - vm_compute. lia.
  - exists fig, segs. split; [exact Hfig|]. split; [exact Hf|].
    replace 20%nat
      with (length (col_reg (features scenario_widgets rising_bars)))
      by (vm_compute; reflexivity).
    exact Hseg.
Defined.

(** ** The whole script on fifteen rows or more *)

Lemma col_reg_length w data : length (col_reg (features w data)) = length data.
Proof.
  unfold col_reg. simpl.
  rewrite length_zip_with, !rolling_length, length_fmap. lia.
Qed.

Lemma kpis_is_Some data d : (0 < length data)%nat → is_Some (kpis data d).
Proof.
  intros Hn. unfold kpis.
  destruct data as [|b data]; [simpl in Hn; lia|].
  destruct (last (clot <$> b :: data)) as [lc|] eqn:E.
  - simpl. eauto.
  - apply last_None in E. done.
Qed.

(** With at least 15 filtered rows no [.iloc] fails: the script runs to
    its last chart. *)
Lemma app_renders fs w p tbl :
  resolve fs candidates = Some (p, tbl) →
  (15 ≤ length (date_filter w (sort_values (dropna tbl))))%nat →
  ∃ k shapes,
    run (app fs w)
      = (Ret (),
         [PageStyle; SidebarSuccess p; HeaderBadge; KpiCards k;
          PriceChart (features w (date_filter w (sort_values (dropna tbl))))
            shapes;
          VolumeChart (vol <$> date_filter w (sort_values (dropna tbl)));
          DrawdownChart
            (col_dd (features w (date_filter w (sort_values (dropna tbl)))));
          VolatilityChart
            (col_volR (features w (date_filter w (sort_values (dropna tbl)))))]).
Proof.
  intros Hres Hlen.
  set (data := date_filter w (sort_values (dropna tbl))) in *.
  destruct (kpis_is_Some data (features w data)) as [k Hk]; [lia|].
  destruct (regime_vrects_closed (date <$> data) (col_reg (features w data)))
    as (shapes & _ & Hshapes & _).
  { by rewrite length_fmap, col_reg_length. }
  { rewrite col_reg_length. lia. }
  exists k, shapes.
  unfold run, app, bind, emit. rewrite load_data_resolve, Hres.
  cbv zeta. fold data.
  destruct (decide _) as [Hlt|_]; [lia|].
  unfold ret. rewrite Hk, Hshapes. reflexivity.
Qed.

(** ** The scenarios of the specification *)

(** Closes 100, 101, ..., 119 with windows 5 and 10: the short average at
    row 9 is 107, the long one 104.5, and the row is in the up regime. *)
Example rising_moving_averages :
  ∃ a b,
    col_maF (features scenario_widgets rising_bars) !! 9%nat = Some (Some a) ∧
    col_maS (features scenario_widgets rising_bars) !! 9%nat = Some (Some b) ∧
    col_maS (features scenario_widgets rising_bars) !! 8%nat = Some None ∧
    (a == 107)%Q ∧ (b == 104.5)%Q ∧
    col_reg (features scenario_widgets rising_bars) !! 9%nat = Some 1.
Proof.
  eexists _, _. repeat split; try (vm_compute; reflexivity);
    vm_compute; discriminate.
Qed.

(** Closes 100, 90, 80, 70: the maximum drawdown is 70/100 - 1. *)
Example falling_max_drawdown :
  ∃ q, col_min (col_dd (features default_widgets
                           (bars_of [100; 90; 80; 70]%Q))) = Fin q ∧
       (q == -0.30)%Q.
Proof. eexists. split; vm_compute; reflexivity. Qed.

(** * Further properties of the script *)

(** ** Which file is read, and which lines survive *)

(** X2: The file with the [.txt] extension is read whenever it exists, even
    next to the other one; the name without extension is the fallback. *)
Theorem load_data_prefers_txt fs tbl :
  (fs !! "AIRBUS_2026-01-16.txt" = Some tbl →
     run (load_data fs)
       = (Ret (sort_values (dropna tbl)),
          [SidebarSuccess "AIRBUS_2026-01-16.txt"])) ∧
  (fs !! "AIRBUS_2026-01-16.txt" = None →
   fs !! "AIRBUS_2026-01-16" = Some tbl →
     run (load_data fs)
       = (Ret (sort_values (dropna tbl)),
          [SidebarSuccess "AIRBUS_2026-01-16"])).
Proof.
  unfold run. rewrite load_data_resolve. unfold candidates. simpl.
  split.
  - by intros ->.
  - by intros -> ->.
Qed.

Lemma load_data_prefers_txt_witness :
  run (load_data files_both)
    = (Ret [bar 20104 150], [SidebarSuccess "AIRBUS_2026-01-16.txt"]) ∧
  run (load_data files_no_extension)
    = (Ret [bar 20104 999], [SidebarSuccess "AIRBUS_2026-01-16"]).
Proof.
  split.
  - apply (proj1 (load_data_prefers_txt files_both [quote 20104 150])).
    vm_compute. reflexivity.
  - apply (proj2 (load_data_prefers_txt files_no_extension [quote 20104 999]));
      vm_compute; reflexivity.
Defined.

Lemma dropna_row_Some r b :
  dropna_row r = Some b ↔
  raw_date r = Some (date b) ∧ raw_clot r = Some (clot b) ∧
  raw_ouv r = ouv b ∧ raw_haut r = haut b ∧
  raw_bas r = bas b ∧ raw_vol r = vol b.
Proof.
  unfold dropna_row. destruct r as [d o h l c v], b as [d' o' h' l' c' v'].
  simpl. split.
  - destruct d, c; intros [= -> -> -> -> -> ->]; done.
  - intros (-> & -> & -> & -> & -> & ->). done.
Qed.

(** X3: The loaded series holds, once each, the lines whose date and close
    both parsed, with their other cells as they are, missing or not; a
    line without date or without close is never loaded. *)
Theorem load_data_rows fs df log :
  run (load_data fs) = (Ret df, log) →
  ∃ p tbl,
    resolve fs candidates = Some (p, tbl) ∧
    df ≡ₚ dropna tbl ∧
    (length df ≤ length tbl)%nat ∧
    ∀ b, b ∈ df ↔
      ∃ r, r ∈ tbl ∧
        raw_date r = Some (date b) ∧ raw_clot r = Some (clot b) ∧
        raw_ouv r = ouv b ∧ raw_haut r = haut b ∧
        raw_bas r = bas b ∧ raw_vol r = vol b.
Proof.
  intros (p & tbl & Hres & -> & _)%load_data_Ret.
  exists p, tbl. split; [done|].
  split; [apply sort_values_Permutation|]. split.
  - rewrite sort_values_Permutation. apply length_omap_le.
  - intros b. rewrite sort_values_Permutation. unfold dropna.
    rewrite list_elem_of_omap.
    split; intros (r & Hr & Hb); exists r; (split; [done|]);
      by apply dropna_row_Some.
Qed.

Lemma load_data_rows_witness :
  ∃ p tbl,
    resolve files_partial_lines candidates = Some (p, tbl) ∧
    [mkBar (day 20105) None None None 151%Q None] ≡ₚ dropna tbl ∧
    (1 ≤ length tbl)%nat.
Proof.
  destruct (load_data_rows files_partial_lines
              [mkBar (day 20105) None None None 151%Q None]
              [SidebarSuccess "AIRBUS_2026-01-16.txt"])
    as (p & tbl & Hres & Hperm & Hlen & _).
  - vm_compute. reflexivity.
  - exists p, tbl. done.
Defined.

(** ** The date range *)

Lemma foldl_Zmin_le d ds x :
  x ∈ d :: ds → foldl Z.min d ds ≤ x.
Proof.
  revert d x. induction ds as [|y ds IH]; intros d x; simpl.
  - intros ->%list_elem_of_singleton. lia.
  - intros [->|[->|Hx]%elem_of_cons]%elem_of_cons.
    + pose proof (IH (d `min` y) (d `min` y) ltac:(by left)). lia.
    + pose proof (IH (d `min` y) (d `min` y) ltac:(by left)). lia.
    + apply IH. by right.
Qed.

Lemma foldl_Zmax_ge d ds x :
  x ∈ d :: ds → x ≤ foldl Z.max d ds.
Proof.
  revert d x. induction ds as [|y ds IH]; intros d x; simpl.
  - intros ->%list_elem_of_singleton. lia.
  - intros [->|[->|Hx]%elem_of_cons]%elem_of_cons.
    + pose proof (IH (d `max` y) (d `max` y) ltac:(by left)). lia.
    + pose proof (IH (d `max` y) (d `max` y) ltac:(by left)). lia.
    + apply IH. by right.
Qed.

Lemma dt_date_mono t t' : t ≤ t' → dt_date t ≤ dt_date t'.
Proof. intros H. unfold dt_date, ns_per_day. by apply Z.div_le_mono. Qed.

Lemma filter_all {A} (P : A → Prop) `{∀ x, Decision (P x)} (l : list A) :
  Forall P l → filter P l = l.
Proof.
  induction 1 as [|x l Hx _ IH]; [done|].
  rewrite filter_cons_True by done. by rewrite IH.
Qed.

(** X4: With the two date inputs left at the days they propose, the filter
    keeps the whole loaded series. *)
Theorem default_range_keeps_all w df lo hi :
  default_range df = Some (lo, hi) →
  start w = lo → end_ w = hi →
  date_filter w df = df.
Proof.
  unfold default_range, date_min, date_max.
  destruct (date <$> df) as [|d ds] eqn:E; [done|]. simpl.
  intros [= <- <-] Hs He. unfold date_filter.
  apply filter_all. apply Forall_forall. intros b Hb.
  assert (Hin : date b ∈ d :: ds).
  { rewrite <- E. apply list_elem_of_fmap. by exists b. }
  rewrite Hs, He. split; apply dt_date_mono.
  - by apply foldl_Zmin_le.
  - by apply foldl_Zmax_ge.
Qed.

Lemma default_range_keeps_all_witness :
  default_range falling_bars = Some (20104, 20108) ∧
  date_filter (mkWidgets 20104 20108 20 50 20) falling_bars = falling_bars.
Proof.
  split; [vm_compute; reflexivity|].
  apply (default_range_keeps_all _ falling_bars 20104 20108);
    vm_compute; reflexivity.
Defined.

Lemma filter_sublist_impl {A} (P Q : A → Prop)
    `{∀ x, Decision (P x)} `{∀ x, Decision (Q x)} (l : list A) :
  (∀ x, P x → Q x) → filter P l `sublist_of` filter Q l.
Proof.
  intros HPQ. induction l as [|x l IH]; [done|].
  destruct (decide (P x)) as [HP|HP].
  - rewrite !filter_cons_True by auto. by constructor.
  - rewrite (filter_cons_False P) by done.
    destruct (decide (Q x)).
    + rewrite filter_cons_True by done. by constructor.
    + by rewrite filter_cons_False by done.
Qed.

(** X5: Widening the date range only adds rows, in place: rows filtered in
    stay, and a series that passed the 15-row gate still passes it. *)
Theorem date_filter_widen w w' df :
  start w' ≤ start w → end_ w ≤ end_ w' →
  date_filter w df `sublist_of` date_filter w' df ∧
  ((15 ≤ length (date_filter w df))%nat →
   (15 ≤ length (date_filter w' df))%nat).
Proof.
  intros Hs He.
  assert (Hsub : date_filter w df `sublist_of` date_filter w' df).
  { unfold date_filter. apply filter_sublist_impl. intros b. simpl. lia. }
  split; [done|]. apply sublist_length in Hsub. lia.
Qed.

Lemma date_filter_widen_witness :
  date_filter week_widgets rising_bars
    `sublist_of` date_filter fortnight_widgets rising_bars.
Proof.
  apply (date_filter_widen week_widgets fortnight_widgets rising_bars);
    vm_compute; discriminate.
Defined.

(** ** How a run ends *)

Lemma app_no_file_run fs w :
  resolve fs candidates = None →
  run (app fs w)
    = (Raise (FileNotFoundError "AIRBUS_2026-01-16.txt introuvable"),
       [PageStyle]).
Proof.
  intros Hres. unfold run, app, bind, emit.
  by rewrite load_data_resolve, Hres.
Qed.

Lemma app_stop_run fs w p tbl :
  resolve fs candidates = Some (p, tbl) →
  (length (date_filter w (sort_values (dropna tbl))) < 15)%nat →
  run (app fs w)
    = (Stop, [PageStyle; SidebarSuccess p; StError "Pas assez de données"]).
Proof.
  intros Hres Hlen. unfold run, app, bind, emit.
  rewrite load_data_resolve, Hres. cbv zeta.
  destruct (decide _) as [_|Hge]; [reflexivity | lia].
Qed.





(** ** The derived columns *)

(** X8: Every derived column, the regime flag included, has one cell per
    filtered row. *)
Theorem features_aligned w data :
  length (col_ret (features w data)) = length data ∧
  length (col_maF (features w data)) = length data ∧
  length (col_maS (features w data)) = length data ∧
  length (col_peak (features w data)) = length data ∧
  length (col_dd (features w data)) = length data ∧
  length (col_volR (features w data)) = length data ∧
  length (col_reg (features w data)) = length data.
Proof.
  simpl. rewrite pct_change_length, !rolling_length, cummax_length.
  rewrite length_zip_with, cummax_length, !length_fmap.
  rewrite rolling_length, pct_change_length, length_fmap.
  repeat split; [lia|]. apply col_reg_length.
Qed.













(** ** The drawdown and performance KPIs *)










(** ** What the shading looks like *)

Lemma vrect_loop_constant dates reg r :
  (∀ i, (i < length reg)%nat → reg !! i = Some r) →
  ∀ m j st, (1 ≤ j)%nat → (j + m ≤ length reg)%nat →
    vrect_loop dates reg st (seq j m) = Some st.
Proof.
  intros Hr. induction m as [|m IH]; intros j [s fig] Hj Hm; [done|].
  simpl. rewrite (Hr j), (Hr (j - 1)%nat) by lia. simpl.
  destruct (decide (r ≠ r)) as [Hne|_]; [done|].
  apply IH; lia.
Qed.

(** One regime all along gives one rectangle, from the first date to the
    last. *)
Lemma regime_vrects_constant dates reg r d0 d1 :
  length dates = length reg →
  dates !! 0%nat = Some d0 → last dates = Some d1 →
  (∀ i, (i < length reg)%nat → reg !! i = Some r) →
  regime_vrects dates reg = Some [mkVrect d0 d1 (fill r)].
Proof.
  intros Hlen Hd0 Hd1 Hr. unfold regime_vrects.
  assert (Hn : (0 < length reg)%nat).
  { rewrite <- Hlen. by eapply lookup_lt_Some. }
  rewrite (vrect_loop_constant dates reg r Hr) by lia. simpl.
  rewrite Hd0, Hd1. simpl.
  rewrite last_lookup, Hr by lia. done.
Qed.

Lemma Qltb_irrefl a : Qltb a a = false.
Proof.
  destruct (Qltb a a) eqn:E; [|done].
  apply Qltb_lt in E. by apply Qlt_irrefl in E.
Qed.

(** X17: When the two windows are equal, or when the filtered series has fewer
    rows than one of them, no row is in the up regime: the whole period is
    shaded by a single red rectangle. *)
Theorem regime_vrects_single_red w data d0 d1 :
  (date <$> data) !! 0%nat = Some d0 →
  last (date <$> data) = Some d1 →
  maF w = maS w ∨ (length data < maF w)%nat ∨ (length data < maS w)%nat →
  regime_vrects (date <$> data) (col_reg (features w data))
    = Some [mkVrect d0 d1 RED_FILL].
Proof.
  intros Hd0 Hd1 Hcase.
  apply (regime_vrects_constant _ _ 0 d0 d1); [|done|done|].
  { by rewrite length_fmap, col_reg_length. }
  rewrite col_reg_length. intros i Hi.
  destruct (col_reg_lookup w data i Hi) as (a & b & Ha & Hb & Hr).
  rewrite Hr. f_equal.
  assert (Hc : (i < length (clot <$> data))%nat) by by rewrite length_fmap.
  destruct Hcase as [Heq|[Hshort|Hshort]].
  - simpl in Ha, Hb. rewrite Heq, Hb in Ha. injection Ha as <-.
    destruct b; simpl; [|done]. by rewrite Qltb_irrefl.
  - simpl in Ha. rewrite rolling_short_history in Ha by (done || lia).
    by injection Ha as <-.
  - simpl in Hb. rewrite rolling_short_history in Hb by (done || lia).
    injection Hb as <-. by destruct a.
Qed.

Lemma regime_vrects_single_red_witness :
  regime_vrects (date <$> falling_bars)
    (col_reg (features default_widgets falling_bars))
    = Some [mkVrect (day 20104) (day 20108) RED_FILL].
Proof.
  apply (regime_vrects_single_red default_widgets falling_bars).
  - reflexivity.
  - reflexivity.
  - right. left. vm_compute. lia.
Defined.

Lemma col_reg_values w data i r :
  col_reg (features w data) !! i = Some r → r = 0 ∨ r = 1.
Proof.
  unfold col_reg. intros (a & b & -> & _ & _)%lookup_zip_with_Some.
  destruct (gt_nan a b); simpl; auto.
Qed.

Lemma regime_vrects_nonempty dates reg fig :
  regime_vrects dates reg = Some fig → (0 < length dates)%nat.
Proof.
  destruct dates as [|d dates]; [|simpl; lia].
  unfold regime_vrects. simpl. done.
Qed.

(** X18: The rectangles of the price chart are green or red, and two
    consecutive ones never have the same colour. *)
Theorem regime_vrects_alternate w data fig :
  regime_vrects (date <$> data) (col_reg (features w data)) = Some fig →
  (∀ v, v ∈ fig → fillcolor v = GREEN_FILL ∨ fillcolor v = RED_FILL) ∧
  (∀ k v v', fig !! k = Some v → fig !! S k = Some v' →
     fillcolor v ≠ fillcolor v').
Proof.
  intros Hfig.
  pose proof (regime_vrects_nonempty _ _ _ Hfig) as Hn.
  rewrite length_fmap in Hn.
  destruct (regime_vrects_closed (date <$> data) (col_reg (features w data)))
    as (fig' & segs & Hfig' & Hf & Hc & _).
  { by rewrite length_fmap, col_reg_length. }
  { by rewrite col_reg_length. }
  rewrite Hfig in Hfig'. injection Hfig' as <-.
  assert (Hcol : ∀ k iv, segs !! k = Some iv →
                 i_regime iv = 0 ∨ i_regime iv = 1).
  { intros k iv Hk.
    destruct (closed_rows _ _ _ _ _ Hc Hk) as (Hse & _ & Hrows & _).
    apply (col_reg_values w data (i_start iv)).
    apply Hrows. unfold covers. lia. }
  split.
  - intros v [k Hv]%list_elem_of_lookup.
    destruct (Forall2_lookup_r _ _ _ _ _ Hf Hv) as (iv & Hiv & _ & _ & ->).
    destruct (Hcol k iv Hiv) as [-> | ->]; [by right|by left].
  - intros k v v' Hv Hv'.
    destruct (Forall2_lookup_r _ _ _ _ _ Hf Hv) as (iv & Hiv & _ & _ & ->).
    destruct (Forall2_lookup_r _ _ _ _ _ Hf Hv') as (iv' & Hiv' & _ & _ & ->).
    destruct (closed_next _ _ _ _ _ _ Hc Hiv Hiv') as [_ Hne].
    destruct (Hcol k iv Hiv) as [H0|H1], (Hcol (S k) iv' Hiv') as [H0'|H1'];
      rewrite ?H0, ?H1, ?H0', ?H1' in *; try done.
Qed.

Lemma regime_vrects_alternate_witness :
  ∃ fig,
    regime_vrects (date <$> rising_bars)
      (col_reg (features scenario_widgets rising_bars)) = Some fig ∧
    (∀ k v v', fig !! k = Some v → fig !! S k = Some v' →
       fillcolor v ≠ fillcolor v').
Proof.
  eexists. split; [vm_compute; reflexivity|].
  apply (regime_vrects_alternate scenario_widgets rising_bars).
  vm_compute. reflexivity.
Defined.

Lemma StronglySorted_filter {A} (R : relation A) (P : A → Prop)
    `{∀ x, Decision (P x)} (l : list A) :
  StronglySorted R l → StronglySorted R (filter P l).
Proof.
  induction 1 as [|x l Hs IH Hall]; [constructor|].
  destruct (decide (P x)).
  - rewrite filter_cons_True by done. constructor; [done|].
    apply Forall_forall. intros y [_ Hy]%list_elem_of_filter.
    rewrite Forall_forall in Hall. by apply Hall.
  - by rewrite filter_cons_False by done.
Qed.

(** The dates of the filtered series are in ascending order. *)
Lemma filtered_dates_sorted w tbl :
  StronglySorted Z.le (date <$> date_filter w (sort_values (dropna tbl))).
Proof.
  apply (StronglySorted_fmap date date_le Z.le); [done|].
  unfold date_filter. apply StronglySorted_filter.
  apply Sorted_StronglySorted; [apply _|]. apply sort_values_Sorted.
Qed.

(** X19: In a run, the rectangles of the price chart tile the displayed
    period: the first starts at the first filtered date, the last ends at
    the last one, each ends no earlier than it starts and no later than
    the next one starts. *)
Theorem regime_vrects_tile_period w tbl fig :
  regime_vrects (date <$> date_filter w (sort_values (dropna tbl)))
    (col_reg (features w (date_filter w (sort_values (dropna tbl)))))
    = Some fig →
  (∃ v, fig !! 0%nat = Some v ∧
        (date <$> date_filter w (sort_values (dropna tbl))) !! 0%nat
          = Some (x0 v)) ∧
  (∃ v, last fig = Some v ∧
        last (date <$> date_filter w (sort_values (dropna tbl)))
          = Some (x1 v)) ∧
  (∀ k v, fig !! k = Some v →
     x0 v ≤ x1 v ∧ ∀ v', fig !! S k = Some v' → x1 v ≤ x0 v').
Proof.
  set (data := date_filter w (sort_values (dropna tbl))).
  intros Hfig.
  pose proof (filtered_dates_sorted w tbl) as Hsorted. fold data in Hsorted.
  pose proof (regime_vrects_nonempty _ _ _ Hfig) as Hn.
  rewrite length_fmap in Hn.
  destruct (regime_vrects_closed (date <$> data) (col_reg (features w data)))
    as (fig' & segs & Hfig' & Hf & Hc & _).
  { by rewrite length_fmap, col_reg_length. }
  { by rewrite col_reg_length. }
  rewrite Hfig in Hfig'. injection Hfig' as <-.
  rewrite col_reg_length in Hc.
  assert (Hlen : length segs = length fig) by by eapply Forall2_length.
  assert (Hsegs : (0 < length segs)%nat).
  { destruct segs as [|iv segs]; [|simpl; lia].
    apply closed_last in Hc. simpl in Hc. lia. }
  split; [|split].
  - destruct (lookup_lt_is_Some_2 segs 0%nat Hsegs) as [iv Hiv].
    destruct (Forall2_lookup_l _ _ _ _ _ Hf Hiv) as (v & Hv & Hx0 & _).
    exists v. split; [done|].
    by rewrite <- (closed_first _ _ _ _ Hc Hiv).
  - destruct (last segs) as [iv|] eqn:Hlast.
    2:{ apply last_None in Hlast. subst segs. simpl in Hsegs. lia. }
    pose proof (closed_last _ _ _ Hc) as Hend. rewrite Hlast in Hend.
    rewrite last_lookup in Hlast.
    destruct (Forall2_lookup_l _ _ _ _ _ Hf Hlast) as (v & Hv & _ & Hx1 & _).
    exists v. split.
    + rewrite last_lookup, <- Hlen. exact Hv.
    + rewrite last_lookup, length_fmap, <- Hend. exact Hx1.
  - intros k v Hv.
    destruct (Forall2_lookup_r _ _ _ _ _ Hf Hv) as (iv & Hiv & Hx0 & Hx1 & _).
    destruct (closed_rows _ _ _ _ _ Hc Hiv) as (Hse & _).
    split.
    + by apply (StronglySorted_lookup_le (date <$> data)
                  (i_start iv) (i_end iv)).
    + intros v' Hv'.
      destruct (Forall2_lookup_r _ _ _ _ _ Hf Hv')
        as (iv' & Hiv' & Hx0' & _ & _).
      destruct (closed_next _ _ _ _ _ _ Hc Hiv Hiv') as [Hnext _].
      apply (StronglySorted_lookup_le (date <$> data)
               (i_end iv) (i_start iv'));
        [done|lia|done|done].
Qed.

Lemma regime_vrects_tile_period_witness :
  ∃ fig v,
    regime_vrects
      (date <$> date_filter scenario_widgets
                  (sort_values (dropna ((λ i, quote (20104 + Z.of_nat i)
                                          (150 + inject_Z (Z.of_nat i)))
                                         <$> seq 0 20))))
      (col_reg (features scenario_widgets
                  (date_filter scenario_widgets
                     (sort_values (dropna ((λ i, quote (20104 + Z.of_nat i)
                                             (150 + inject_Z (Z.of_nat i)))
                                            <$> seq 0 20))))))
      = Some fig ∧
    fig !! 0%nat = Some v ∧ x0 v = day 20104.
Proof.
  destruct (regime_vrects
      (date <$> date_filter scenario_widgets
                  (sort_values (dropna ((λ i, quote (20104 + Z.of_nat i)
                                          (150 + inject_Z (Z.of_nat i)))
                                         <$> seq 0 20))))
      (col_reg (features scenario_widgets
                  (date_filter scenario_widgets
                     (sort_values (dropna ((λ i, quote (20104 + Z.of_nat i)
                                             (150 + inject_Z (Z.of_nat i)))
                                            <$> seq 0 20)))))))
    as [fig|] eqn:Hfig.
  2:{ vm_compute in Hfig. discriminate. }
  destruct (regime_vrects_tile_period scenario_widgets _ fig Hfig)
    as ((v & Hv & Hx0) & _ & _).
  exists fig, v. split; [reflexivity|]. split; [exact Hv|].
  vm_compute in Hx0. by injection Hx0.
Defined.

(** ** What the sliders do not change *)

Lemma app_render_run fs w p tbl k shapes :
  resolve fs candidates = Some (p, tbl) →
  (15 ≤ length (date_filter w (sort_values (dropna tbl))))%nat →
  kpis (date_filter w (sort_values (dropna tbl)))
    (features w (date_filter w (sort_values (dropna tbl)))) = Some k →
  regime_vrects (date <$> date_filter w (sort_values (dropna tbl)))
    (col_reg (features w (date_filter w (sort_values (dropna tbl)))))
    = Some shapes →
  run (app fs w)
    = (Ret (),
       [PageStyle; SidebarSuccess p; HeaderBadge; KpiCards k;
        PriceChart (features w (date_filter w (sort_values (dropna tbl))))
          shapes;
        VolumeChart (vol <$> date_filter w (sort_values (dropna tbl)));
        DrawdownChart
          (col_dd (features w (date_filter w (sort_values (dropna tbl)))));
        VolatilityChart
          (col_volR (features w (date_filter w (sort_values (dropna tbl)))))]).
Proof.
  intros Hres Hlen Hk Hshapes.
  unfold run, app, bind, emit. rewrite load_data_resolve, Hres.
  cbv zeta. destruct (decide _) as [Hlt|_]; [lia|].
  unfold ret. rewrite Hk, Hshapes. reflexivity.
Qed.

Lemma date_filter_same_range w w' df :
  start w = start w' → end_ w = end_ w' →
  date_filter w df = date_filter w' df.
Proof. intros Hs He. unfold date_filter. by rewrite Hs, He. Qed.

(** X16: Moving the three sliders, with the dates unchanged, changes neither
    how the run ends nor anything it shows besides the price chart and
    the volatility chart: the error message, the KPI cards, the volume
    chart and the drawdown chart are the same. *)
Theorem sliders_leave_kpis fs w w' :
  start w = start w' → end_ w = end_ w' →
  (run (app fs w)).1 = (run (app fs w')).1 ∧
  filter (λ e, slider_free e = true) (run (app fs w)).2
    = filter (λ e, slider_free e = true) (run (app fs w')).2.
Proof.
  intros Hs He.
  destruct (resolve fs candidates) as [[p tbl]|] eqn:Hres.
  2:{ by rewrite !app_no_file_run. }
  pose proof (date_filter_same_range w w' (sort_values (dropna tbl)) Hs He)
    as Hdata.
  destruct (decide (length (date_filter w (sort_values (dropna tbl))) < 15)%nat)
    as [Hlt|Hge].
  - rewrite (app_stop_run fs w p tbl Hres Hlt).
    rewrite (app_stop_run fs w' p tbl Hres) by by rewrite <- Hdata.
    done.
  - set (data := date_filter w (sort_values (dropna tbl))) in *.
    destruct (kpis_is_Some data (features w data)) as [k Hk]; [lia|].
    assert (Hk' : kpis data (features w' data) = Some k) by exact Hk.
    destruct (regime_vrects_closed (date <$> data) (col_reg (features w data)))
      as (shapes & _ & Hshapes & _).
    { by rewrite length_fmap, col_reg_length. }
    { rewrite col_reg_length. lia. }
    destruct (regime_vrects_closed (date <$> data)
                (col_reg (features w' data)))
      as (shapes' & _ & Hshapes' & _).
    { by rewrite length_fmap, col_reg_length. }
    { rewrite col_reg_length. lia. }
    rewrite (app_render_run fs w p tbl k shapes Hres ltac:(fold data; lia)
               Hk Hshapes).
    rewrite (app_render_run fs w' p tbl k shapes' Hres).
    + rewrite <- Hdata. fold data. done.
    + rewrite <- Hdata. fold data. lia.
    + rewrite <- Hdata. exact Hk'.
    + rewrite <- Hdata. exact Hshapes'.
Qed.

Lemma sliders_leave_kpis_witness :
  (run (app files_twenty_days default_widgets)).1
    = (run (app files_twenty_days other_sliders)).1 ∧
  filter (λ e, slider_free e = true)
    (run (app files_twenty_days default_widgets)).2
    = filter (λ e, slider_free e = true)
        (run (app files_twenty_days other_sliders)).2.
Proof.
  apply (sliders_leave_kpis files_twenty_days default_widgets other_sliders);
    reflexivity.
Defined.

(** ** The volatility KPI *)




(** ** Styling a figure *)




(** X21: Styling twice is styling once with the last title and height. *)
Theorem dark_last_wins fig title h title' h' :
  dark (dark fig title h) title' h' = dark fig title' h'.
Proof.
  unfold dark. simpl. f_equal; apply map_eq; intros k;
    rewrite !lookup_insert;
    repeat (destruct (decide _); [done|]); done.
Qed.

(** ** The loader's failure and the running peak *)


(** X12: The running peak of a row is the highest close up to that row: no
    earlier close is above it, and one of them reaches it. *)
Theorem col_peak_running_max w data i p :
  col_peak (features w data) !! i = Some p →
  (∀ j b, (j ≤ i)%nat → data !! j = Some b → (clot b <= p)%Q) ∧
  (∃ j b, (j ≤ i)%nat ∧ data !! j = Some b ∧ clot b = p).
Proof.
  simpl. intros Hp.
  destruct (cummax_running_max _ _ _ Hp) as [Hub (j & Hj & Hat)].
  split.
  - intros j' b Hj' Hb. apply (Hub j'); [done|].
    by rewrite list_lookup_fmap, Hb.
  - apply list_lookup_fmap_Some in Hat as (b & -> & Hb).
    by exists j, b.
Qed.

Lemma col_peak_running_max_witness :
  (∀ j b, (j ≤ 3)%nat → falling_bars !! j = Some b → (clot b <= 100)%Q) ∧
  (∃ j b, (j ≤ 3)%nat ∧ falling_bars !! j = Some b ∧ clot b = 100%Q).
Proof.
  apply (col_peak_running_max default_widgets falling_bars 3 100%Q).
  reflexivity.
Defined.
